(** * iomanip_centered: the [centered] stream manipulator

    A shallow embedding of [iomanip_centered.h]: the [center_helper]
    class, the [centered] overloads and the [operator<<] that writes a
    [center_helper] into a [std::basic_ostream], together with the part of
    the standard stream library the operator calls ([width], the string
    inserters and [std::to_string]). *)

From Stdlib Require Import ZArith Lia Bool List.
From Stdlib Require Import Ascii String DecimalString.
From Stdlib Require Import DecimalFacts DecimalPos DecimalZ.

Local Open Scope string_scope.
Local Open Scope Z_scope.

(** ** Machine integers

    [std::streamsize] is a signed 64-bit integer and [size_t] an unsigned
    one (LP64).  Values are kept in [Z]; conversions and the arithmetic
    that can leave the range are written out. *)

Module Int64.

Definition modulus : Z := 2 ^ 64.
Definition half_modulus : Z := 2 ^ 63.
Definition streamsize_min : Z := - half_modulus.
Definition streamsize_max : Z := half_modulus - 1.

(** the values a [std::streamsize] can hold *)
Definition is_streamsize (z : Z) : Prop := streamsize_min <= z <= streamsize_max.

Definition is_streamsizeb (z : Z) : bool :=
  (streamsize_min <=? z) && (z <=? streamsize_max).

(** [static_cast<size_t>(z)]: reduction modulo 2^64 *)
Definition to_size_t (z : Z) : Z := z mod modulus.

(** [size_t + size_t], wrapping *)
Definition size_t_add (a b : Z) : Z := (a + b) mod modulus.

(** [size_t / size_t] *)
Definition size_t_div (a b : Z) : Z := a / b.

(** conversion of a [size_t] to [std::streamsize] (two's complement) *)
Definition to_streamsize (u : Z) : Z :=
  if u <? half_modulus then u else u - modulus.

(** [streamsize - streamsize]; signed overflow is undefined behaviour and
    is reported as [None] *)
Definition streamsize_sub (a b : Z) : option Z :=
  let r := a - b in
  if is_streamsizeb r then Some r else None.

End Int64.

(** [int] is a signed 32-bit integer. *)

Module Int32.

Definition int_min : Z := - 2 ^ 31.
Definition int_max : Z := 2 ^ 31 - 1.

(** conversion of an integer value to [int] (two's complement) *)
Definition to_int (z : Z) : Z := (z + 2 ^ 31) mod 2 ^ 32 - 2 ^ 31.

End Int32.

(** ** The part of [std::basic_ostream<char>] the manipulator uses

    The stream is taken in its [good()] state over a buffer that accepts
    every character (an [ostringstream], or [cout]), so each inserter
    writes all of its characters. *)

Module Ios.

(** [std::ios_base::fmtflags] as a bit mask, with libstdc++'s values *)
Definition fmtflags := Z.
Definition dec : fmtflags := 2.
Definition internal : fmtflags := 16.
Definition left : fmtflags := 32.
Definition right : fmtflags := 128.
Definition skipws : fmtflags := 4096.
Definition adjustfield : fmtflags := Z.lor left (Z.lor right internal).

Record basic_ostream : Type := mk_ostream {
  width : Z;             (* ios_base::width(), a std::streamsize *)
  precision : Z;         (* ios_base::precision() *)
  fill : ascii;          (* basic_ios::fill() *)
  flags : fmtflags;      (* ios_base::flags() *)
  written : string       (* the characters written so far *)
}.

(** the state [basic_ios::init] leaves a new stream in *)
Definition init : basic_ostream :=
  {| width := 0; precision := 6; fill := " "%char;
     flags := Z.lor skipws dec; written := "" |}.

(** [s.width(n)] *)
Definition set_width (s : basic_ostream) (n : Z) : basic_ostream :=
  {| width := n; precision := precision s; fill := fill s;
     flags := flags s; written := written s |}.

(** [s << std::setw(n)]: [std::setw] takes an [int], so the argument is
    converted to [int] before the width is set *)
Definition setw (n : Z) (s : basic_ostream) : basic_ostream :=
  set_width s (Int32.to_int n).

(** [(s.flags() & adjustfield) == left] *)
Definition adjust_left (s : basic_ostream) : bool :=
  Z.land (flags s) adjustfield =? left.

(** [n] copies of the fill character *)
Fixpoint fill_n (n : nat) (c : ascii) : string :=
  match n with
  | O => ""
  | S k => String c (fill_n k c)
  end.

Definition str_length (str : string) : Z := Z.of_nat (String.length str).

(** What a character-sequence inserter writes: the sequence, padded with
    [width() - size] fill characters when [width() > size]; the padding
    goes after the sequence when the adjustment is [left] and before it
    otherwise. *)
Definition padded (s : basic_ostream) (str : string) : string :=
  let n := str_length str in
  if width s >? n then
    let pad := fill_n (Z.to_nat (width s - n)) (fill s) in
    if adjust_left s then str ++ pad else pad ++ str
  else str.

(** [s << str] for a [std::string] or a [const char*]: writes the padded
    sequence, then calls [width(0)]. *)
Definition insert_string (s : basic_ostream) (str : string) : basic_ostream :=
  {| width := 0; precision := precision s; fill := fill s;
     flags := flags s; written := written s ++ padded s str |}.

End Ios.

Import Int32 Int64 Ios.

(** ** [std::to_string]

    The integer overloads print the decimal digits of the value, with a
    leading minus sign when it is negative. *)

Definition to_string_Z (z : Z) : string := NilZero.string_of_int (Z.to_int z).

Definition to_string_int : Z -> string := to_string_Z.
Definition to_string_unsigned : Z -> string := to_string_Z.
Definition to_string_long : Z -> string := to_string_Z.
Definition to_string_unsigned_long : Z -> string := to_string_Z.
Definition to_string_long_long : Z -> string := to_string_Z.
Definition to_string_unsigned_long_long : Z -> string := to_string_Z.

(** The floating-point overloads print as [sprintf] does with ["%f"]:
    fixed notation with six digits after the point, the value rounded to
    the nearest millionth (ties to even), [inf] and [nan] for the
    infinities and the NaNs, and a minus sign when the sign bit is set.
    A [float] argument is promoted to [double], which keeps its value, so
    one type of values serves both overloads. *)

(** a binary floating-point value: a zero, an infinity, a NaN, or
    [(-1)^negative * m * 2^e] *)
Inductive floating : Type :=
| FZero (negative : bool)
| FInfinity (negative : bool)
| FNaN (negative : bool)
| FFinite (negative : bool) (m : positive) (e : Z).

Definition sign_text (negative : bool) : string := if negative then "-" else "".

(** the character of the decimal digit [d] *)
Definition digit_char (d : Z) : ascii := ascii_of_N (Z.to_N (48 + d)).

(** the last [k] decimal digits of [n] *)
Fixpoint digits_fixed (k : nat) (n : Z) : string :=
  match k with
  | O => ""
  | S k' => digits_fixed k' (n / 10) ++ String (digit_char (n mod 10)) ""
  end.

(** [N / D] rounded to the nearest integer, ties to even *)
Definition round_half_even (N D : Z) : Z :=
  let q := N / D in
  let r := N mod D in
  if 2 * r <? D then q
  else if D <? 2 * r then q + 1
  else if Z.even q then q else q + 1.

(** [m * 2^e] as the fraction [numerator m e / denominator e] *)
Definition numerator (m : positive) (e : Z) : Z :=
  if 0 <=? e then Z.pos m * 2 ^ e else Z.pos m.
Definition denominator (e : Z) : Z :=
  if 0 <=? e then 1 else 2 ^ (- e).

(** [m * 2^e] in millionths, rounded *)
Definition millionths (m : positive) (e : Z) : Z :=
  round_half_even (numerator m e * 10 ^ 6) (denominator e).

(** [q] millionths in fixed notation *)
Definition to_string_fixed (q : Z) : string :=
  to_string_Z (q / 10 ^ 6) ++ "." ++ digits_fixed 6 (q mod 10 ^ 6).

Definition to_string_floating (x : floating) : string :=
  match x with
  | FZero negative => sign_text negative ++ "0.000000"
  | FInfinity negative => sign_text negative ++ "inf"
  | FNaN negative => sign_text negative ++ "nan"
  | FFinite negative m e => sign_text negative ++ to_string_fixed (millionths m e)
  end.

(** ** Reading decimal text

    What a text denotes, independently of how it was printed. *)

Definition digit_value (c : ascii) : option Z :=
  let n := Z.of_N (N_of_ascii c) in
  if (48 <=? n) && (n <=? 57) then Some (n - 48) else None.

(** the number a string of decimal digits denotes, continuing from [acc] *)
Fixpoint digits_value (acc : Z) (s : string) : option Z :=
  match s with
  | EmptyString => Some acc
  | String c rest =>
      match digit_value c with
      | Some d => digits_value (10 * acc + d) rest
      | None => None
      end
  end.

(** the integer a text denotes: decimal digits, after a minus sign or not *)
Definition decimal_value (s : string) : option Z :=
  match s with
  | EmptyString => None
  | String c rest =>
      if Ascii.eqb c "-" then
        match rest with
        | EmptyString => None
        | String _ _ => option_map Z.opp (digits_value 0 rest)
        end
      else digits_value 0 s
  end.

(** no leading zero, and no sign on zero *)
Definition canonical_decimal (s : string) : bool :=
  match s with
  | EmptyString => false
  | String c rest =>
      if Ascii.eqb c "-" then
        match rest with
        | EmptyString => false
        | String d _ => negb (Ascii.eqb d "0")
        end
      else if Ascii.eqb c "0" then
        match rest with EmptyString => true | String _ _ => false end
      else true
  end.

(** [s] is the canonical decimal text of [z] *)
Definition is_decimal_text (z : Z) (s : string) : Prop :=
  decimal_value s = Some z /\ canonical_decimal s = true.

(** [s] is the fixed-notation text of the fraction [N / D >= 0] at the
    default precision: a canonical decimal integer [I], a point and six
    digits [F], the number [I.F] being [N / D] rounded to a nearest
    millionth *)
Definition is_fixed_text (N D : Z) (s : string) : Prop :=
  exists (I F : string) (i f : Z),
    s = I ++ "." ++ F /\
    is_decimal_text i I /\ 0 <= i /\
    String.length F = 6%nat /\ digits_value 0 F = Some f /\
    2 * Z.abs ((i * 10 ^ 6 + f) * D - N * 10 ^ 6) <= D.

(** [s] is the text of the floating-point value [x] *)
Definition is_floating_text (x : floating) (s : string) : Prop :=
  match x with
  | FZero negative =>
      exists t, s = sign_text negative ++ t /\ is_fixed_text 0 1 t
  | FInfinity negative => s = sign_text negative ++ "inf"
  | FNaN negative => s = sign_text negative ++ "nan"
  | FFinite negative m e =>
      exists t, s = sign_text negative ++ t /\
                is_fixed_text (numerator m e) (denominator e) t
  end.

(** ** [center_helper] and the [centered] overloads *)

Record center_helper : Type := mk_center_helper { str_ : string }.

(** [centered(const std::string&)] *)
Definition centered_string (str : string) : center_helper :=
  mk_center_helper str.

(** [centered(char)]: [std::string(1, character)] *)
Definition centered_char (character : ascii) : center_helper :=
  mk_center_helper (String character "").

(** The integer overloads.  [signed char], [unsigned char], [short] and
    [unsigned short] arguments are promoted to [int], which keeps their
    value, and go to [std::to_string(int)]. *)
Definition centered_signed_char (intval : Z) : center_helper :=
  mk_center_helper (to_string_int intval).
Definition centered_unsigned_char (intval : Z) : center_helper :=
  mk_center_helper (to_string_int intval).
Definition centered_short (intval : Z) : center_helper :=
  mk_center_helper (to_string_int intval).
Definition centered_unsigned_short (intval : Z) : center_helper :=
  mk_center_helper (to_string_int intval).
Definition centered_int (intval : Z) : center_helper :=
  mk_center_helper (to_string_int intval).
Definition centered_unsigned (intval : Z) : center_helper :=
  mk_center_helper (to_string_unsigned intval).
Definition centered_long (intval : Z) : center_helper :=
  mk_center_helper (to_string_long intval).
Definition centered_unsigned_long (intval : Z) : center_helper :=
  mk_center_helper (to_string_unsigned_long intval).
Definition centered_long_long (intval : Z) : center_helper :=
  mk_center_helper (to_string_long_long intval).
Definition centered_unsigned_long_long (intval : Z) : center_helper :=
  mk_center_helper (to_string_unsigned_long_long intval).

(** The floating-point overloads call [std::to_string(float)] and
    [std::to_string(double)].  The overload set is stated for any two
    value types and conversions; [floating] and [to_string_floating]
    are the ones of the platform. *)
Section Wrap.

Variables float double : Type.
Variable to_string_float : float -> string.
Variable to_string_double : double -> string.

Definition centered_float (floatval : float) : center_helper :=
  mk_center_helper (to_string_float floatval).
Definition centered_double (floatval : double) : center_helper :=
  mk_center_helper (to_string_double floatval).

(** The argument types of the overload set, one constructor per
    overload; an integer constructor carries a value of its type. *)
Inductive value : Type :=
| VString (str : string)
| VChar (character : ascii)
| VSignedChar (intval : Z)
| VUnsignedChar (intval : Z)
| VShort (intval : Z)
| VUnsignedShort (intval : Z)
| VInt (intval : Z)
| VUnsigned (intval : Z)
| VLong (intval : Z)
| VUnsignedLong (intval : Z)
| VLongLong (intval : Z)
| VUnsignedLongLong (intval : Z)
| VFloat (floatval : float)
| VDouble (floatval : double).

(** overload resolution of [centered(v)] *)
Definition centered (v : value) : center_helper :=
  match v with
  | VString str => centered_string str
  | VChar character => centered_char character
  | VSignedChar intval => centered_signed_char intval
  | VUnsignedChar intval => centered_unsigned_char intval
  | VShort intval => centered_short intval
  | VUnsignedShort intval => centered_unsigned_short intval
  | VInt intval => centered_int intval
  | VUnsigned intval => centered_unsigned intval
  | VLong intval => centered_long intval
  | VUnsignedLong intval => centered_unsigned_long intval
  | VLongLong intval => centered_long_long intval
  | VUnsignedLongLong intval => centered_unsigned_long_long intval
  | VFloat floatval => centered_float floatval
  | VDouble floatval => centered_double floatval
  end.

(** the text a request holds for [v] *)
Definition text (v : value) : string := str_ (centered v).

End Wrap.

Arguments VString {float double} str.
Arguments VChar {float double} character.
Arguments VSignedChar {float double} intval.
Arguments VUnsignedChar {float double} intval.
Arguments VShort {float double} intval.
Arguments VUnsignedShort {float double} intval.
Arguments VInt {float double} intval.
Arguments VUnsigned {float double} intval.
Arguments VLong {float double} intval.
Arguments VUnsignedLong {float double} intval.
Arguments VLongLong {float double} intval.
Arguments VUnsignedLongLong {float double} intval.
Arguments VFloat {float double} floatval.
Arguments VDouble {float double} floatval.
Arguments centered {float double} to_string_float to_string_double v.
Arguments text {float double} to_string_float to_string_double v.

(** The conversion rule in the specification's words, as a relation
    between a value and a text: a string passes as it is, a character
    becomes the string of that one character, an integer becomes its
    canonical decimal text and a floating-point number its fixed-notation
    text at the default precision. *)
Definition conversion_rule (v : value floating floating) (s : string) : Prop :=
  match v with
  | VString str => s = str
  | VChar character => s = String character EmptyString /\ String.length s = 1%nat
  | VSignedChar z | VUnsignedChar z | VShort z | VUnsignedShort z
  | VInt z | VUnsigned z | VLong z | VUnsignedLong z
  | VLongLong z | VUnsignedLongLong z => is_decimal_text z s
  | VFloat x | VDouble x => is_floating_text x s
  end.

(** ** [operator<<(basic_ostream&, const center_helper&)] *)

(** the guard [static_cast<size_t>(w) > c.str_.length()] *)
Definition wider (w : Z) (c : center_helper) : bool :=
  to_size_t w >? str_length (str_ c).

(** [std::streamsize left = (w + c.str_.length()) / 2]: [w] is converted
    to [size_t] by the usual arithmetic conversions, the sum and the
    quotient are unsigned, and the result is converted back. *)
Definition left_width (w : Z) (c : center_helper) : Z :=
  to_streamsize
    (size_t_div (size_t_add (to_size_t w) (str_length (str_ c))) 2).

Definition insert_centered (s : basic_ostream) (c : center_helper)
  : option basic_ostream :=
  let w := width s in
  if wider w c then
    let left := left_width w c in
    let s1 := set_width s left in
    let s2 := insert_string s1 (str_ c) in
    match streamsize_sub w left with
    | Some r =>
        let s3 := set_width s2 r in
        Some (insert_string s3 "")
    | None => None
    end
  else
    Some (insert_string s (str_ c)).

(** [(w + n) / 2] as the quotient of the signed sum, truncated towards
    zero as C++ divides signed integers: what [left] would be if the sum
    were computed on the signed value of [w]. *)
Definition signed_half_sum (w : Z) (c : center_helper) : Z :=
  Z.quot (w + str_length (str_ c)) 2.

(** the fill counts before and after the text, for width [w] and a text
    of [n] units *)
Definition left_pad (w n : Z) : Z := (w + n) / 2 - n.
Definition right_pad (w n : Z) : Z := w - (w + n) / 2.

(** a stream at width 10 after [s << std::left], with the default fill
    character and nothing written *)
Definition left_adjusted_stream : basic_ostream :=
  {| width := 10; precision := 6; fill := " "%char;
     flags := Z.lor (Z.lor skipws dec) left; written := "" |}.

(** ** Rows of centered fields

    The header's usage writes a table row as a chain
    [s << setw(w1) << centered(x1) << setw(w2) << centered(x2) ...]. *)

(** one link of the chain: [s << setw(w) << c] *)
Definition put_centered (w : Z) (c : center_helper) (s : basic_ostream)
  : option basic_ostream :=
  insert_centered (setw w s) c.

(** the chain, for the fields [(w, c)] of a row from left to right *)
Fixpoint put_row (cols : list (Z * center_helper)) (s : basic_ostream)
  : option basic_ostream :=
  match cols with
  | nil => Some s
  | (w, c) :: rest =>
      match put_centered w c s with
      | Some s1 => put_row rest s1
      | None => None
      end
  end.

(** the sum of [max w n] over the fields of a row *)
Fixpoint row_length (cols : list (Z * center_helper)) : Z :=
  match cols with
  | nil => 0
  | (w, c) :: rest => Z.max w (str_length (str_ c)) + row_length rest
  end.

(** the sum of the widths of a row *)
Fixpoint row_width (cols : list (Z * center_helper)) : Z :=
  match cols with
  | nil => 0
  | (w, _) :: rest => w + row_width rest
  end.

(** [p] holds of the integers [lo, lo + 1, ..., lo + len - 1] *)
Fixpoint all_in_range (p : Z -> bool) (lo : Z) (len : nat) : bool :=
  match len with
  | O => true
  | S k => p lo && all_in_range p (lo + 1) k
  end.

(** ** Strings *)

Lemma append_assoc (a b c : string) : (a ++ b) ++ c = a ++ (b ++ c).
Proof.
  induction a as [|x a IH]; simpl; [reflexivity | now rewrite IH].
Qed.

Lemma append_empty_r (a : string) : a ++ "" = a.
Proof.
  induction a as [|x a IH]; simpl; [reflexivity | now rewrite IH].
Qed.

Lemma length_append (a b : string) :
  String.length (a ++ b) = (String.length a + String.length b)%nat.
Proof.
  induction a as [|x a IH]; simpl; [reflexivity | now rewrite IH].
Qed.

Lemma str_length_append (a b : string) :
  str_length (a ++ b) = str_length a + str_length b.
Proof. unfold str_length. rewrite length_append. lia. Qed.

Lemma str_length_nonneg (a : string) : 0 <= str_length a.
Proof. unfold str_length. lia. Qed.

Lemma length_fill_n (n : nat) (c : ascii) : String.length (fill_n n c) = n.
Proof. induction n as [|n IH]; simpl; [reflexivity | now rewrite IH]. Qed.

Lemma str_length_fill_n (k : Z) (c : ascii) :
  0 <= k -> str_length (fill_n (Z.to_nat k) c) = k.
Proof. intros Hk. unfold str_length. rewrite length_fill_n. lia. Qed.

(** ** The inserters *)

Lemma padded_split (s : basic_ostream) (str : string) :
  padded s str =
  if adjust_left s
  then str ++ fill_n (Z.to_nat (width s - str_length str)) (fill s)
  else fill_n (Z.to_nat (width s - str_length str)) (fill s) ++ str.
Proof.
  unfold padded. destruct (width s >? str_length str) eqn:Hw.
  - reflexivity.
  - rewrite Z.gtb_ltb in Hw. apply Z.ltb_ge in Hw.
    replace (Z.to_nat (width s - str_length str)) with O by lia.
    simpl. destruct (adjust_left s); [now rewrite append_empty_r | reflexivity].
Qed.

Lemma padded_fits (s : basic_ostream) (str : string) :
  width s <= str_length str -> padded s str = str.
Proof.
  intros Hw. unfold padded.
  destruct (width s >? str_length str) eqn:E; [|reflexivity].
  apply Z.gtb_lt in E. lia.
Qed.

Lemma padded_empty (s : basic_ostream) :
  padded s "" = fill_n (Z.to_nat (width s)) (fill s).
Proof.
  rewrite padded_split. change (str_length "") with 0. rewrite Z.sub_0_r.
  destruct (adjust_left s); [reflexivity | apply append_empty_r].
Qed.

Lemma adjust_left_set_width (s : basic_ostream) (n : Z) :
  adjust_left (set_width s n) = adjust_left s.
Proof. reflexivity. Qed.

(** ** Arithmetic of the operator *)

Lemma to_size_t_nonneg (w : Z) :
  0 <= w <= streamsize_max -> to_size_t w = w.
Proof.
  unfold to_size_t, streamsize_max, half_modulus, modulus. intros Hw.
  apply Z.mod_small. lia.
Qed.

Lemma to_size_t_neg (w : Z) :
  streamsize_min <= w < 0 -> to_size_t w = modulus + w.
Proof.
  unfold to_size_t, streamsize_min, half_modulus, modulus. intros Hw.
  symmetry. apply (Z.mod_unique_pos _ _ (-1)); lia.
Qed.

Lemma wider_nonneg (w : Z) (c : center_helper) :
  0 <= w <= streamsize_max ->
  wider w c = (w >? str_length (str_ c)).
Proof. intros Hw. unfold wider. now rewrite to_size_t_nonneg. Qed.

Lemma left_width_nonneg (w : Z) (c : center_helper) :
  0 <= w <= streamsize_max -> str_length (str_ c) < w ->
  left_width w c = (w + str_length (str_ c)) / 2.
Proof.
  intros Hw Hn. pose proof (str_length_nonneg (str_ c)) as H0.
  unfold left_width, size_t_add, size_t_div. rewrite (to_size_t_nonneg w Hw).
  unfold streamsize_max, half_modulus, modulus in *.
  rewrite Z.mod_small by lia.
  unfold to_streamsize, half_modulus.
  destruct (_ <? _) eqn:E; [reflexivity|].
  apply Z.ltb_ge in E.
  assert ((w + str_length (str_ c)) / 2 < 2 ^ 63)
    by (apply Z.div_lt_upper_bound; lia).
  lia.
Qed.

Lemma half_sum_bounds (w n : Z) :
  0 <= n < w -> n <= (w + n) / 2 < w.
Proof.
  intros H. split.
  - apply Z.div_le_lower_bound; lia.
  - apply Z.div_lt_upper_bound; lia.
Qed.

Lemma streamsize_sub_in_range (a b : Z) :
  is_streamsize (a - b) -> streamsize_sub a b = Some (a - b).
Proof.
  unfold is_streamsize, streamsize_sub, is_streamsizeb. intros [Hl Hu].
  apply Z.leb_le in Hl, Hu. cbv zeta. now rewrite Hl, Hu.
Qed.

(** ** The two branches of the operator *)

Lemma insert_centered_narrow (s : basic_ostream) (c : center_helper) :
  0 <= width s <= streamsize_max -> width s <= str_length (str_ c) ->
  insert_centered s c =
  Some {| width := 0; precision := precision s; fill := fill s;
          flags := flags s; written := written s ++ str_ c |}.
Proof.
  intros Hw Hn. unfold insert_centered. rewrite (wider_nonneg _ _ Hw).
  destruct (width s >? str_length (str_ c)) eqn:E.
  - apply Z.gtb_lt in E. lia.
  - unfold insert_string. now rewrite padded_fits.
Qed.

Lemma insert_centered_wide (s : basic_ostream) (c : center_helper) :
  0 <= width s <= streamsize_max -> str_length (str_ c) < width s ->
  insert_centered s c =
  Some {| width := 0; precision := precision s; fill := fill s;
          flags := flags s;
          written :=
            (written s ++
             (let pad := fill_n (Z.to_nat (left_pad (width s) (str_length (str_ c))))
                                (fill s) in
              if adjust_left s then str_ c ++ pad else pad ++ str_ c)) ++
            fill_n (Z.to_nat (right_pad (width s) (str_length (str_ c)))) (fill s) |}.
Proof.
  intros Hw Hn. pose proof (str_length_nonneg (str_ c)) as H0.
  pose proof (half_sum_bounds (width s) (str_length (str_ c)) (conj H0 Hn)) as Hb.
  unfold insert_centered. rewrite (wider_nonneg _ _ Hw).
  destruct (width s >? str_length (str_ c)) eqn:E;
    [clear E | rewrite Z.gtb_ltb in E; apply Z.ltb_ge in E; lia].
  rewrite (left_width_nonneg _ _ Hw Hn).
  rewrite streamsize_sub_in_range
    by (unfold is_streamsize, streamsize_min, streamsize_max, half_modulus in *; lia).
  unfold insert_string at 1. rewrite padded_empty.
  unfold insert_string. cbn [width precision fill flags written set_width].
  rewrite padded_split, adjust_left_set_width. reflexivity.
Qed.

Lemma insert_centered_total (s : basic_ostream) (c : center_helper) :
  0 <= width s <= streamsize_max ->
  exists s', insert_centered s c = Some s'.
Proof.
  intros Hw. destruct (Z_lt_le_dec (str_length (str_ c)) (width s)) as [Hn|Hn].
  - eexists. apply (insert_centered_wide _ _ Hw Hn).
  - eexists. apply (insert_centered_narrow _ _ Hw Hn).
Qed.

(** whatever the width, a completed call leaves [width() == 0] and
    touches no other formatting state *)
Lemma insert_centered_frame (s s' : basic_ostream) (c : center_helper) :
  insert_centered s c = Some s' ->
  width s' = 0 /\ precision s' = precision s /\
  fill s' = fill s /\ flags s' = flags s.
Proof.
  unfold insert_centered. destruct (wider (width s) c).
  - destruct (streamsize_sub _ _); [|discriminate].
    intros H. injection H as <-. now cbn.
  - intros H. injection H as <-. now cbn.
Qed.

(** a completed call only appends to what was written *)
Lemma insert_centered_extends (s s' : basic_ostream) (c : center_helper) :
  insert_centered s c = Some s' ->
  exists e, written s' = written s ++ e.
Proof.
  unfold insert_centered. destruct (wider (width s) c).
  - destruct (streamsize_sub _ _); [|discriminate].
    intros H. injection H as <-. cbn [written insert_string set_width].
    eexists. apply append_assoc.
  - intros H. injection H as <-. cbn [written insert_string]. now eexists.
Qed.

Lemma left_pad_floor (w n : Z) : left_pad w n = (w - n) / 2.
Proof.
  unfold left_pad. replace (w + n) with (w - n + n * 2) by lia.
  rewrite Z.div_add by lia. lia.
Qed.

Lemma right_pad_ceil (w n : Z) : right_pad w n = (w - n + 1) / 2.
Proof.
  unfold right_pad. replace (w + n) with (w - n + n * 2) by lia.
  rewrite Z.div_add by lia. Z.div_mod_to_equations. lia.
Qed.

Lemma pads_nonneg (w n : Z) :
  0 <= n < w -> 0 <= left_pad w n /\ 0 < right_pad w n.
Proof.
  intros H. pose proof (half_sum_bounds w n H). unfold left_pad, right_pad. lia.
Qed.

Lemma pads_sum (w n : Z) : left_pad w n + n + right_pad w n = w.
Proof. unfold left_pad, right_pad. lia. Qed.

(** the lines of the header's usage example *)
Example header_column_A :
  option_map written (insert_centered (setw 10 init) (centered_string "Column A"))
  = Some " Column A ".
Proof. reflexivity. Qed.

Example header_signed_char :
  option_map written (insert_centered (setw 10 init) (centered_signed_char (-10)))
  = Some "   -10    ".
Proof. vm_compute. reflexivity. Qed.

(** After [s << std::left] the first inserter pads after the text, and
    all the fill characters follow it. *)
Example centered_w_left_adjusted :
  option_map written
    (insert_centered
       {| width := 10; precision := 6; fill := " "%char;
          flags := Z.lor (Z.lor skipws dec) left; written := "" |}
       (centered_char "w"))
  = Some "w         ".
Proof. reflexivity. Qed.

(** [10.0f] is [5 * 2^1] *)
Example to_string_ten : to_string_floating (FFinite false 5 1) = "10.000000".
Proof. reflexivity. Qed.

(** the [double] nearest to [0.1] *)
Example to_string_tenth :
  to_string_floating (FFinite false 3602879701896397 (-55)) = "0.100000".
Proof. vm_compute. reflexivity. Qed.

(** [1/128 = 0.0078125] lies half way between two millionths *)
Example to_string_tie : to_string_floating (FFinite false 1 (-7)) = "0.007812".
Proof. vm_compute. reflexivity. Qed.

Example to_string_negative_tiny :
  to_string_floating (FFinite true 1 (-30)) = "-0.000000".
Proof. vm_compute. reflexivity. Qed.

Example header_float :
  option_map written
    (insert_centered (setw 10 init)
       (centered to_string_floating to_string_floating
          (VFloat (FFinite false 5 1))))
  = Some "10.000000 ".
Proof. vm_compute. reflexivity. Qed.

Example to_string_negative : to_string_int (-10) = "-10".
Proof. reflexivity. Qed.

Example to_string_zero : to_string_unsigned 0 = "0".
Proof. reflexivity. Qed.

Example to_string_unsigned_char : str_ (centered_unsigned_char 10) = "10".
Proof. reflexivity. Qed.

(** A negative width can make [w - left] overflow. *)
Example insert_centered_negative_width :
  insert_centered (setw (-2) init) (centered_string "") = None.
Proof. lazy. reflexivity. Qed.

(** ** Properties of the manipulator *)

Section Claims.

Context {float double : Type}.
Variable to_string_float : float -> string.
Variable to_string_double : double -> string.

Local Abbreviation value := (@value float double).
Local Abbreviation centered := (centered to_string_float to_string_double).
Local Abbreviation text := (text to_string_float to_string_double).

(** C1 (as amended).  On a stream whose adjustment is not [left], a
    request for a text of [n] units written at a width [w > n] puts
    [floor((w - n) / 2)] fill characters before the text and
    [ceil((w - n) / 2)] after it: the two counts are equal when [w - n] is
    even, and the side after the text gets the extra one when it is odd. *)
Theorem centered_pads_extra_on_right (s : basic_ostream) (v : value) :
  adjust_left s = false ->
  str_length (text v) < width s -> width s <= streamsize_max ->
  exists s',
    insert_centered s (centered v) = Some s' /\
    written s' =
      written s ++
      fill_n (Z.to_nat (left_pad (width s) (str_length (text v)))) (fill s) ++
      text v ++
      fill_n (Z.to_nat (right_pad (width s) (str_length (text v)))) (fill s) /\
    left_pad (width s) (str_length (text v)) = (width s - str_length (text v)) / 2 /\
    right_pad (width s) (str_length (text v)) = (width s - str_length (text v) + 1) / 2 /\
    (Z.odd (width s - str_length (text v)) = true ->
     right_pad (width s) (str_length (text v)) =
     left_pad (width s) (str_length (text v)) + 1) /\
    (Z.even (width s - str_length (text v)) = true ->
     right_pad (width s) (str_length (text v)) =
     left_pad (width s) (str_length (text v))).
Proof.
  intros Hadj Hn Hmax. pose proof (str_length_nonneg (text v)) as H0.
  assert (Hw : 0 <= width s <= streamsize_max) by lia.
  eexists. split; [apply (insert_centered_wide s (centered v) Hw Hn)|].
  cbn [written]. rewrite Hadj. fold (text v).
  split; [now rewrite !append_assoc|].
  split; [apply left_pad_floor|]. split; [apply right_pad_ceil|].
  rewrite left_pad_floor, right_pad_ceil. split; intros Hp.
  - rewrite Z.odd_spec in Hp. destruct Hp as [k Hk]. rewrite Hk.
    Z.div_mod_to_equations. lia.
  - rewrite Z.even_spec in Hp. destruct Hp as [k Hk]. rewrite Hk.
    Z.div_mod_to_equations. lia.
Qed.

(** C2.  At a width [w >= 0] the request writes [max w n] characters,
    [n] being the length of its text. *)
Theorem centered_writes_max_width_length (s : basic_ostream) (v : value) :
  0 <= width s <= streamsize_max ->
  exists s' e,
    insert_centered s (centered v) = Some s' /\
    written s' = written s ++ e /\
    str_length e = Z.max (width s) (str_length (text v)).
Proof.
  intros Hw. pose proof (str_length_nonneg (text v)) as H0.
  destruct (Z_lt_le_dec (str_length (text v)) (width s)) as [Hn|Hn].
  - destruct (pads_nonneg (width s) (str_length (text v)) (conj H0 Hn)) as [Hl Hr].
    pose proof (pads_sum (width s) (str_length (text v))) as Hsum.
    eexists. eexists.
    split; [apply (insert_centered_wide s (centered v) Hw Hn)|].
    cbn [written]. split; [apply append_assoc|].
    fold (text v). rewrite str_length_append.
    rewrite (str_length_fill_n (right_pad _ _)) by lia.
    destruct (adjust_left s); rewrite str_length_append;
      rewrite (str_length_fill_n (left_pad _ _)) by lia; lia.
  - exists (insert_string s (text v)), (text v).
    split; [|split].
    + rewrite (insert_centered_narrow s (centered v) Hw Hn).
      unfold insert_string. now rewrite padded_fits.
    + cbn [written insert_string]. now rewrite padded_fits.
    + lia.
Qed.

(** C3.  At a width [0 <= w <= n] the request writes its text and nothing
    else: no fill character, and every character of the text. *)
Theorem centered_narrow_writes_text (s : basic_ostream) (v : value) :
  0 <= width s <= str_length (text v) -> width s <= streamsize_max ->
  exists s',
    insert_centered s (centered v) = Some s' /\
    written s' = written s ++ text v.
Proof.
  intros [Hw0 Hn] Hmax. eexists.
  split; [apply (insert_centered_narrow s (centered v)); [lia | exact Hn]|].
  reflexivity.
Qed.

(** C5.  After a request is written, in the padding branch as in the
    other, the width of the stream is 0, so a string written next is not
    padded: every width [w >= 0] gives such a stream, and so does every
    call that completes, whatever the width. *)
Theorem centered_resets_width (s : basic_ostream) (v : value) :
  (0 <= width s <= streamsize_max ->
   exists s', insert_centered s (centered v) = Some s') /\
  (forall s', insert_centered s (centered v) = Some s' ->
     width s' = 0 /\
     forall next : string,
       written (insert_string s' next) = written s' ++ next).
Proof.
  split; [apply insert_centered_total|].
  intros s' Hs'. destruct (insert_centered_frame _ _ _ Hs') as [Hw' _].
  split; [exact Hw'|].
  intros next. cbn [written insert_string]. rewrite padded_fits; [reflexivity|].
  rewrite Hw'. apply str_length_nonneg.
Qed.

(** C6.  With no width set ([width() == 0]) the guard fails and the text
    is written as it is; and for no width [w >= 0] and no text does the
    operator fail. *)
Theorem centered_without_width (v : value) :
  (forall s : basic_ostream, width s = 0 ->
     wider (width s) (centered v) = false /\
     exists s', insert_centered s (centered v) = Some s' /\
                written s' = written s ++ text v) /\
  (forall s : basic_ostream, 0 <= width s <= streamsize_max ->
     insert_centered s (centered v) <> None).
Proof.
  split.
  - intros s H0. pose proof (str_length_nonneg (text v)) as Hn.
    assert (Hw : 0 <= width s <= streamsize_max)
      by (rewrite H0; unfold streamsize_max, half_modulus; lia).
    split.
    + rewrite (wider_nonneg _ _ Hw). rewrite Z.gtb_ltb. apply Z.ltb_ge.
      fold (text v). lia.
    + eexists. split; [apply (insert_centered_narrow s (centered v) Hw)|].
      * fold (text v). lia.
      * reflexivity.
  - intros s Hw. destruct (insert_centered_total s (centered v) Hw) as [s' ->].
    discriminate.
Qed.

(** C7.  ["Column A"] at width 10, on a stream that fills with spaces and
    does not adjust to the left, is written as [" Column A "]: one space
    on each side, ten characters. *)
Theorem centered_column_A (s : basic_ostream) :
  fill s = " "%char -> adjust_left s = false -> width s = 10 ->
  exists s',
    insert_centered s (centered (VString "Column A")) = Some s' /\
    written s' = written s ++ " Column A " /\
    str_length " Column A " = 10.
Proof.
  intros Hf Hadj Hw.
  eexists. split; [apply (insert_centered_wide s (centered (VString "Column A")))|].
  - rewrite Hw. unfold streamsize_max, half_modulus. lia.
  - rewrite Hw. reflexivity.
  - cbn [written]. rewrite Hadj, Hf, Hw. split; [|reflexivity].
    rewrite append_assoc. reflexivity.
Qed.

(** C8 (as amended).  Writing does not change the request, and what is
    written is a function of the value, the width, the fill character
    and the adjustment of the stream: two streams that agree on these
    receive the same characters, and so does the same stream when the
    request is written to it again at the same width. *)
Theorem centered_deterministic (v : value) (s1 s2 : basic_ostream) :
  0 <= width s1 <= streamsize_max ->
  width s2 = width s1 -> fill s2 = fill s1 ->
  adjust_left s2 = adjust_left s1 ->
  exists e s1' s2' s1'',
    insert_centered s1 (centered v) = Some s1' /\
    insert_centered s2 (centered v) = Some s2' /\
    insert_centered (set_width s1' (width s1)) (centered v) = Some s1'' /\
    written s1' = written s1 ++ e /\
    written s2' = written s2 ++ e /\
    written s1'' = written s1' ++ e.
Proof.
  intros Hw Ew Ef Ea.
  destruct (Z_lt_le_dec (str_length (text v)) (width s1)) as [Hn|Hn].
  - destruct (insert_centered_total s1 (centered v) Hw) as [s1' H1].
    destruct (insert_centered_frame _ _ _ H1) as (_ & _ & Hf1 & Hl1).
    assert (Ea1 : adjust_left (set_width s1' (width s1)) = adjust_left s1)
      by (unfold adjust_left; cbn [flags set_width]; now rewrite Hl1).
    eexists. exists s1'. eexists. eexists.
    split; [exact H1|].
    split; [apply (insert_centered_wide s2 (centered v)); rewrite Ew; assumption|].
    split; [apply (insert_centered_wide (set_width s1' (width s1)) (centered v));
            cbn [width set_width]; assumption|].
    rewrite (insert_centered_wide s1 (centered v) Hw Hn) in H1.
    injection H1 as <-.
    cbn [written width fill set_width]. rewrite Ew, Ef, Ea.
    split; [apply append_assoc|]. split; [apply append_assoc|].
    rewrite Ea1. cbn [fill]. apply append_assoc.
  - exists (text v). eexists. eexists. eexists.
    split; [apply (insert_centered_narrow s1 (centered v) Hw Hn)|].
    split; [apply (insert_centered_narrow s2 (centered v)); rewrite Ew; assumption|].
    split; [apply (insert_centered_narrow _ (centered v));
            cbn [width set_width]; assumption|].
    repeat split.
Qed.

(** C10.  Writing a request changes the characters written and the
    width of the stream and nothing else: fill character, flags (and so
    the adjustment) and precision are as before, and the characters
    written before are kept.  Every width [w >= 0] gives such a stream,
    and so does every call that completes, whatever the width. *)
Theorem centered_frame (s : basic_ostream) (v : value) :
  (0 <= width s <= streamsize_max ->
   exists s', insert_centered s (centered v) = Some s') /\
  (forall s', insert_centered s (centered v) = Some s' ->
     fill s' = fill s /\ flags s' = flags s /\
     adjust_left s' = adjust_left s /\ precision s' = precision s /\
     exists e, written s' = written s ++ e).
Proof.
  split; [apply insert_centered_total|].
  intros s' Hs'.
  destruct (insert_centered_frame _ _ _ Hs') as (_ & Hp & Hf & Hl).
  repeat split; try assumption.
  - unfold adjust_left. now rewrite Hl.
  - apply (insert_centered_extends _ _ _ Hs').
Qed.

End Claims.

(** ** The texts of the numeric overloads *)

Lemma digits_value_of_uint_acc (d : Decimal.uint) (acc : positive) :
  digits_value (Z.pos acc) (NilEmpty.string_of_uint d)
  = Some (Z.pos (Pos.of_uint_acc d acc)).
Proof.
  revert acc. induction d; intros acc; cbn [NilEmpty.string_of_uint digits_value Pos.of_uint_acc];
    [reflexivity|..];
    (match goal with
     | |- context [digit_value ?c] =>
         change (digit_value c) with (Some (Z.of_N (N_of_ascii c) - 48))
     end);
    cbn [N_of_ascii N_of_digits]; 
    rewrite <- IHd; f_equal; lia.
Qed.

Lemma digits_value_of_uint (d : Decimal.uint) :
  digits_value 0 (NilEmpty.string_of_uint d) = Some (Z.of_N (Pos.of_uint d)).
Proof.
  induction d; cbn [NilEmpty.string_of_uint digits_value Pos.of_uint];
    [reflexivity | exact IHd |..];
    (match goal with
     | |- context [digit_value ?c] =>
         change (digit_value c) with (Some (Z.of_N (N_of_ascii c) - 48))
     end);
    cbn [N_of_ascii N_of_digits];
    apply (digits_value_of_uint_acc d).
Qed.

Lemma to_uint_head_nonzero (p : positive) (d : Decimal.uint) :
  Pos.to_uint p <> Decimal.D0 d.
Proof.
  intros H.
  pose proof (DecimalPos.Unsigned.to_of (Pos.to_uint p)) as Hn.
  rewrite DecimalPos.Unsigned.of_to in Hn. cbn [N.to_uint] in Hn.
  rewrite H in Hn. unfold Decimal.unorm in Hn.
  destruct (Decimal.nzhead (Decimal.D0 d)) eqn:E; try discriminate Hn.
  - apply (DecimalPos.Unsigned.to_uint_nonzero p). rewrite H. exact Hn.
  - apply (DecimalFacts.nzhead_nonzero (Decimal.D0 d) u). exact E.
Qed.

Lemma decimal_text_of_uint (d : Decimal.uint) :
  d <> Decimal.Nil -> (forall d', d <> Decimal.D0 d') ->
  decimal_value (NilEmpty.string_of_uint d) = Some (Z.of_N (Pos.of_uint d)) /\
  canonical_decimal (NilEmpty.string_of_uint d) = true /\
  canonical_decimal (String "-" (NilEmpty.string_of_uint d)) = true /\
  NilZero.string_of_uint d = NilEmpty.string_of_uint d /\
  exists c rest, NilEmpty.string_of_uint d = String c rest.
Proof.
  intros Hnil Hz. rewrite <- digits_value_of_uint.
  destruct d; try (now destruct Hnil); try (now destruct (Hz d));
    (repeat split; try reflexivity; eexists; eexists; reflexivity).
Qed.

Lemma to_string_Z_decimal (z : Z) : is_decimal_text z (to_string_Z z).
Proof.
  destruct z as [|p|p]; [split; reflexivity|..];
    unfold is_decimal_text, to_string_Z;
    cbn [Z.to_int NilZero.string_of_int];
    destruct (decimal_text_of_uint (Pos.to_uint p)
                (DecimalPos.Unsigned.to_uint_nonnil p) (to_uint_head_nonzero p))
      as (Hv & Hc & Hc' & Hs & c & rest & Hr);
    rewrite DecimalPos.Unsigned.of_to in Hv.
  - rewrite Hs. split; [exact Hv | exact Hc].
  - rewrite Hs. split; [|exact Hc'].
    cbn [decimal_value]. rewrite Hr. rewrite <- Hr.
    change (Ascii.eqb "-" "-") with true. cbv iota.
    assert (Hd : digits_value 0 (NilEmpty.string_of_uint (Pos.to_uint p)) = Some (Z.pos p)).
    { rewrite digits_value_of_uint, DecimalPos.Unsigned.of_to. reflexivity. }
    rewrite Hd. reflexivity.
Qed.

Lemma digits_value_append (a : Z) (s1 s2 : string) :
  digits_value a (s1 ++ s2) =
  match digits_value a s1 with
  | Some b => digits_value b s2
  | None => None
  end.
Proof.
  revert a. induction s1 as [|c s1 IH]; intros a; cbn [append digits_value];
    [reflexivity|].
  destruct (digit_value c); [apply IH | reflexivity].
Qed.

Lemma digit_value_digit_char (d : Z) :
  0 <= d <= 9 -> digit_value (digit_char d) = Some d.
Proof.
  intros Hd.
  assert (H : d = 0 \/ d = 1 \/ d = 2 \/ d = 3 \/ d = 4 \/
              d = 5 \/ d = 6 \/ d = 7 \/ d = 8 \/ d = 9) by lia.
  repeat (destruct H as [->|H]; [reflexivity|]). now subst.
Qed.

Lemma length_digits_fixed (k : nat) (n : Z) : String.length (digits_fixed k n) = k.
Proof.
  revert n. induction k as [|k IH]; intros n; cbn [digits_fixed]; [reflexivity|].
  rewrite length_append, IH. cbn. lia.
Qed.

Lemma digits_value_fixed (k : nat) (a n : Z) :
  0 <= n ->
  digits_value a (digits_fixed k n) = Some (a * 10 ^ Z.of_nat k + n mod 10 ^ Z.of_nat k).
Proof.
  revert n. induction k as [|k IH]; intros n Hn.
  - cbn [digits_fixed digits_value]. rewrite Z.mod_1_r. f_equal. cbn. lia.
  - cbn [digits_fixed]. rewrite digits_value_append, IH
      by (apply Z.div_pos; lia).
    cbn [digits_value]. rewrite digit_value_digit_char
      by (pose proof (Z.mod_pos_bound n 10); lia).
    f_equal. rewrite Nat2Z.inj_succ, Z.pow_succ_r by lia.
    rewrite (Z.rem_mul_r n 10 (10 ^ Z.of_nat k)) by lia. lia.
Qed.

Lemma round_half_even_nearest (N D : Z) :
  0 <= N -> 0 < D ->
  0 <= round_half_even N D /\
  2 * Z.abs (round_half_even N D * D - N) <= D.
Proof.
  intros HN HD. unfold round_half_even.
  pose proof (Z.div_mod N D ltac:(lia)) as Hdm.
  pose proof (Z.mod_pos_bound N D HD) as Hr.
  assert (Hq : 0 <= N / D) by (apply Z.div_pos; lia).
  set (q := N / D) in *. set (r := N mod D) in *. cbv zeta.
  destruct (2 * r <? D) eqn:E1; [apply Z.ltb_lt in E1 | apply Z.ltb_ge in E1].
  - split; [lia|]. replace (q * D - N) with (- r) by lia. lia.
  - destruct (D <? 2 * r) eqn:E2; [apply Z.ltb_lt in E2 | apply Z.ltb_ge in E2].
    + split; [lia|]. replace ((q + 1) * D - N) with (D - r) by lia. lia.
    + destruct (Z.even q).
      * split; [lia|]. replace (q * D - N) with (- r) by lia. lia.
      * split; [lia|]. replace ((q + 1) * D - N) with (D - r) by lia. lia.
Qed.

Lemma to_string_fixed_text (q N D : Z) :
  0 <= q -> 2 * Z.abs (q * D - N * 10 ^ 6) <= D ->
  is_fixed_text N D (to_string_fixed q).
Proof.
  intros Hq Hn. unfold to_string_fixed.
  exists (to_string_Z (q / 10 ^ 6)), (digits_fixed 6 (q mod 10 ^ 6)),
         (q / 10 ^ 6), (q mod 10 ^ 6).
  pose proof (Z.mod_pos_bound q (10 ^ 6) ltac:(lia)) as Hm.
  split; [reflexivity|]. split; [apply to_string_Z_decimal|].
  split; [apply Z.div_pos; lia|]. split; [apply length_digits_fixed|].
  split.
  - rewrite digits_value_fixed by lia. f_equal.
    change (Z.of_nat 6) with 6. rewrite Z.mod_mod by lia. lia.
  - replace (q / 10 ^ 6 * 10 ^ 6 + q mod 10 ^ 6) with q; [exact Hn|].
    rewrite (Z.div_mod q (10 ^ 6)) at 1 by lia. lia.
Qed.

Lemma denominator_pos (e : Z) : 0 < denominator e.
Proof.
  unfold denominator. destruct (0 <=? e) eqn:E; [lia|].
  apply Z.leb_gt in E. apply Z.pow_pos_nonneg; lia.
Qed.

Lemma numerator_nonneg (m : positive) (e : Z) : 0 <= numerator m e.
Proof.
  unfold numerator. destruct (0 <=? e) eqn:E; [|lia].
  apply Z.leb_le in E. apply Z.mul_nonneg_nonneg; [lia|].
  apply Z.pow_nonneg. lia.
Qed.

Lemma to_string_floating_text (x : floating) :
  is_floating_text x (to_string_floating x).
Proof.
  destruct x as [neg|neg|neg|neg m e]; cbn [is_floating_text to_string_floating];
    try reflexivity.
  - exists "0.000000". split; [reflexivity|].
    exists "0", "000000", 0, 0. repeat split; try reflexivity. cbn. lia.
  - eexists. split; [reflexivity|].
    pose proof (numerator_nonneg m e) as HN. pose proof (denominator_pos e) as HD.
    destruct (round_half_even_nearest (numerator m e * 10 ^ 6) (denominator e))
      as [Hq Hn]; [lia | exact HD |].
    apply to_string_fixed_text; [exact Hq | exact Hn].
Qed.

(** C4.  The text a request holds follows the conversion rule: a string
    passes unchanged, a character becomes the string of that one
    character, an integer of any of the ten integer types becomes its
    canonical decimal text, and a [float] or [double] becomes the text of
    the standard conversion: fixed notation with six digits after the
    point, the value rounded to a nearest millionth, or [inf] or [nan],
    after a minus sign when the value is negative. *)
Theorem centered_text_follows_conversion_rule (v : value floating floating) :
  conversion_rule v (text to_string_floating to_string_floating v).
Proof.
  destruct v; cbn [conversion_rule].
  - reflexivity.
  - split; reflexivity.
  - apply to_string_Z_decimal.
  - apply to_string_Z_decimal.
  - apply to_string_Z_decimal.
  - apply to_string_Z_decimal.
  - apply to_string_Z_decimal.
  - apply to_string_Z_decimal.
  - apply to_string_Z_decimal.
  - apply to_string_Z_decimal.
  - apply to_string_Z_decimal.
  - apply to_string_Z_decimal.
  - apply to_string_floating_text.
  - apply to_string_floating_text.
Qed.

(** C9 (as amended).  With a negative width [w] the guard compares
    [w + 2^64] with the length [n], so the padding branch is taken for
    every text shorter than [2^64 + w]; [left] is then computed on the
    unsigned value too, [((w + 2^64 + n) mod 2^64) / 2]: it is
    [2^63 + floor((w + n) / 2)], not the signed quotient, when [n < -w],
    and it is the signed quotient [(w + n) / 2] when [n >= -w]. *)
Theorem negative_width_left_is_unsigned (w : Z) (c : center_helper) :
  streamsize_min <= w < 0 -> str_length (str_ c) < modulus + w ->
  wider w c = true /\
  left_width w c = ((modulus + w + str_length (str_ c)) mod modulus) / 2 /\
  (str_length (str_ c) < - w ->
   left_width w c = half_modulus + (w + str_length (str_ c)) / 2 /\
   left_width w c <> signed_half_sum w c) /\
  (- w <= str_length (str_ c) -> left_width w c = signed_half_sum w c).
Proof.
  intros Hw Hn. pose proof (str_length_nonneg (str_ c)) as H0.
  unfold wider, left_width, signed_half_sum, size_t_add, size_t_div.
  rewrite (to_size_t_neg w Hw).
  set (n := str_length (str_ c)) in *.
  unfold streamsize_min, half_modulus, modulus in *.
  assert (Hq : ((2 ^ 64 + w + n) mod 2 ^ 64) / 2 < 2 ^ 63).
  { apply Z.div_lt_upper_bound; [lia|].
    pose proof (Z.mod_pos_bound (2 ^ 64 + w + n) (2 ^ 64)). lia. }
  assert (Hs : to_streamsize (((2 ^ 64 + w + n) mod 2 ^ 64) / 2)
               = ((2 ^ 64 + w + n) mod 2 ^ 64) / 2).
  { unfold to_streamsize, half_modulus.
    destruct (_ <? _) eqn:E; [reflexivity | apply Z.ltb_ge in E; lia]. }
  rewrite Hs. split; [apply Z.gtb_lt; lia|]. split; [reflexivity|]. split.
  - intros Hlt. rewrite (Z.mod_small (2 ^ 64 + w + n)) by lia.
    assert (Hh : (2 ^ 64 + w + n) / 2 = 2 ^ 63 + (w + n) / 2).
    { replace (2 ^ 64 + w + n) with (w + n + 2 ^ 63 * 2) by lia.
      rewrite Z.div_add by lia. lia. }
    rewrite Hh. split; [reflexivity|].
    assert (Z.quot (w + n) 2 <= 0) by (apply Z.quot_le_upper_bound; lia).
    assert (- 2 ^ 62 <= (w + n) / 2) by (apply Z.div_le_lower_bound; lia).
    lia.
  - intros Hge.
    replace (2 ^ 64 + w + n) with (w + n + 1 * 2 ^ 64) by lia.
    rewrite Z.mod_add by lia. rewrite Z.mod_small by lia.
    symmetry. apply Z.quot_div_nonneg; lia.
Qed.

(** ** Instances *)

Lemma centered_pads_extra_on_right_witness :
  exists s',
    insert_centered (setw 10 init)
      (centered (fun _ : unit => "") (fun _ : unit => "") (VChar "w"%char))
    = Some s' /\
    written s' = "    w     ".
Proof.
  destruct (centered_pads_extra_on_right (fun _ : unit => "") (fun _ : unit => "")
              (setw 10 init) (VChar "w"%char))
    as (s' & Hs' & Hout & _).
  - reflexivity.
  - reflexivity.
  - vm_compute. discriminate.
  - exists s'. split; [exact Hs' | rewrite Hout; reflexivity].
Defined.

(** ['w'] at width 10 gets four spaces before it and five after, not
    five and four. *)
Lemma centered_w_not_left_biased :
  option_map written (insert_centered (setw 10 init) (centered_char "w"))
    = Some "    w     " /\
  option_map written (insert_centered (setw 10 init) (centered_char "w"))
    <> Some "     w    ".
Proof. split; [reflexivity | vm_compute; discriminate]. Qed.

Lemma centered_writes_max_width_length_witness :
  exists s' e,
    insert_centered (setw 10 init)
      (centered (fun _ : unit => "") (fun _ : unit => "") (VSignedChar (-10)))
    = Some s' /\
    written s' = written (setw 10 init) ++ e /\
    str_length e = 10.
Proof.
  apply (centered_writes_max_width_length (fun _ : unit => "") (fun _ : unit => "")
           (setw 10 init) (VSignedChar (-10))).
  vm_compute. split; discriminate.
Defined.

Lemma centered_narrow_writes_text_witness :
  exists s',
    insert_centered (setw 2 init)
      (centered (fun _ : unit => "") (fun _ : unit => "") (VString "abc"))
    = Some s' /\
    written s' = "abc".
Proof.
  apply (centered_narrow_writes_text (fun _ : unit => "") (fun _ : unit => "")
           (setw 2 init) (VString "abc")).
  - vm_compute. split; discriminate.
  - vm_compute. discriminate.
Defined.

Lemma centered_resets_width_witness :
  exists s',
    insert_centered (setw 10 init)
      (centered (fun _ : unit => "") (fun _ : unit => "") (VInt 42))
    = Some s' /\
    width s' = 0 /\
    forall next : string, written (insert_string s' next) = written s' ++ next.
Proof.
  destruct (centered_resets_width (fun _ : unit => "") (fun _ : unit => "")
              (setw 10 init) (VInt 42)) as [Htotal Hreset].
  destruct Htotal as [s' Hs'].
  - vm_compute. split; discriminate.
  - exists s'. split; [exact Hs' | exact (Hreset s' Hs')].
Defined.

Lemma centered_without_width_witness :
  (exists s',
     insert_centered init
       (centered (fun _ : unit => "") (fun _ : unit => "") (VString "abc"))
     = Some s' /\
     written s' = "abc") /\
  insert_centered (setw 7 init)
    (centered (fun _ : unit => "") (fun _ : unit => "") (VString "abc"))
  <> None.
Proof.
  destruct (centered_without_width (fun _ : unit => "") (fun _ : unit => "")
              (VString "abc")) as [Hzero Htotal].
  split.
  - apply (Hzero init). reflexivity.
  - apply (Htotal (setw 7 init)). vm_compute. split; discriminate.
Defined.

Lemma centered_column_A_witness :
  exists s',
    insert_centered (setw 10 init)
      (centered (fun _ : unit => "") (fun _ : unit => "") (VString "Column A"))
    = Some s' /\
    written s' = " Column A " /\
    str_length " Column A " = 10.
Proof.
  apply (centered_column_A (fun _ : unit => "") (fun _ : unit => "") (setw 10 init));
    reflexivity.
Defined.

Lemma centered_deterministic_witness :
  exists e s1' s2' s1'',
    insert_centered (setw 10 init)
      (centered (fun _ : unit => "") (fun _ : unit => "") (VChar "w"%char))
    = Some s1' /\
    insert_centered (setw 10 (insert_string init "abc"))
      (centered (fun _ : unit => "") (fun _ : unit => "") (VChar "w"%char))
    = Some s2' /\
    insert_centered (set_width s1' 10)
      (centered (fun _ : unit => "") (fun _ : unit => "") (VChar "w"%char))
    = Some s1'' /\
    written s1' = e /\
    written s2' = "abc" ++ e /\
    written s1'' = written s1' ++ e.
Proof.
  apply (centered_deterministic (fun _ : unit => "") (fun _ : unit => "")
           (VChar "w"%char) (setw 10 init) (setw 10 (insert_string init "abc"))).
  - vm_compute. split; discriminate.
  - reflexivity.
  - reflexivity.
  - reflexivity.
Defined.

(** Same value, same width, same fill character, nothing written yet:
    the default stream and a stream adjusted to the left do not receive
    the same characters. *)
Lemma centered_differs_across_adjustment :
  width (setw 10 init) = width left_adjusted_stream /\
  fill (setw 10 init) = fill left_adjusted_stream /\
  written (setw 10 init) = written left_adjusted_stream /\
  option_map written (insert_centered (setw 10 init) (centered_char "w"))
    = Some "    w     " /\
  option_map written (insert_centered left_adjusted_stream (centered_char "w"))
    = Some "w         " /\
  option_map written (insert_centered (setw 10 init) (centered_char "w"))
    <> option_map written (insert_centered left_adjusted_stream (centered_char "w")).
Proof.
  repeat split; try reflexivity. vm_compute. discriminate.
Qed.

Lemma negative_width_left_is_unsigned_witness :
  wider (-1) (centered_string "") = true /\
  left_width (-1) (centered_string "") = streamsize_max /\
  left_width (-1) (centered_string "") <> signed_half_sum (-1) (centered_string "").
Proof.
  destruct (negative_width_left_is_unsigned (-1) (centered_string ""))
    as (Hg & _ & Hlt & _).
  - vm_compute. split; [discriminate | reflexivity].
  - reflexivity.
  - split; [exact Hg|]. split; [reflexivity|]. apply Hlt. reflexivity.
Defined.

(** At width [-1] and the empty text the padding branch is taken, but
    [left] is [2^63 - 1], not the signed quotient [(-1 + 0) / 2 = 0]. *)
Lemma negative_width_left_not_signed :
  ~ (wider (-1) (centered_string "") = true /\
     left_width (-1) (centered_string "")
     = signed_half_sum (-1) (centered_string "")).
Proof. intros [_ H]. vm_compute in H. discriminate. Qed.

Lemma centered_frame_witness :
  exists s',
    insert_centered (setw 10 init)
      (centered (fun _ : unit => "") (fun _ : unit => "") (VUnsignedChar 10))
    = Some s' /\
    fill s' = " "%char /\ flags s' = Z.lor skipws dec /\
    adjust_left s' = false /\ precision s' = 6.
Proof.
  destruct (centered_frame (fun _ : unit => "") (fun _ : unit => "")
              (setw 10 init) (VUnsignedChar 10)) as [Htotal Hframe].
  destruct Htotal as [s' Hs'].
  - vm_compute. split; discriminate.
  - exists s'. destruct (Hframe s' Hs') as (Hf & Hl & Ha & Hp & _).
    repeat split; assumption.
Defined.

(** ** Further properties of the operator *)

Lemma fill_n_add (a b : nat) (c : ascii) :
  fill_n a c ++ fill_n b c = fill_n (a + b) c.
Proof. induction a as [|a IH]; simpl; [reflexivity | now rewrite IH]. Qed.

Lemma wider_negative (w : Z) (c : center_helper) :
  streamsize_min <= w < 0 ->
  wider w c = (modulus + w >? str_length (str_ c)).
Proof. intros Hw. unfold wider. now rewrite to_size_t_neg. Qed.

Lemma to_streamsize_small (u : Z) : u < half_modulus -> to_streamsize u = u.
Proof.
  intros Hu. unfold to_streamsize.
  destruct (u <? half_modulus) eqn:E; [reflexivity | apply Z.ltb_ge in E; lia].
Qed.

(** [left] for a negative width and a text of at least [-w] units *)
Lemma left_width_negative_long (w : Z) (c : center_helper) :
  streamsize_min <= w < 0 ->
  - w <= str_length (str_ c) < modulus + w ->
  left_width w c = (w + str_length (str_ c)) / 2.
Proof.
  intros Hw Hn. unfold left_width, size_t_add, size_t_div.
  rewrite (to_size_t_neg w Hw).
  unfold streamsize_min, half_modulus, modulus in *.
  replace (2 ^ 64 + w + str_length (str_ c))
    with (w + str_length (str_ c) + 1 * 2 ^ 64) by lia.
  rewrite Z.mod_add by lia. rewrite Z.mod_small by lia.
  apply to_streamsize_small. unfold half_modulus.
  apply Z.div_lt_upper_bound; lia.
Qed.

(** [left] for a negative width and a text of fewer than [-w] units *)
Lemma left_width_negative_short (w : Z) (c : center_helper) :
  streamsize_min <= w < 0 -> str_length (str_ c) < - w ->
  left_width w c = half_modulus + (w + str_length (str_ c)) / 2.
Proof.
  intros Hw Hn. pose proof (str_length_nonneg (str_ c)) as H0.
  unfold left_width, size_t_add, size_t_div.
  rewrite (to_size_t_neg w Hw).
  unfold streamsize_min, half_modulus, modulus in *.
  rewrite Z.mod_small by lia.
  replace (2 ^ 64 + w + str_length (str_ c))
    with (w + str_length (str_ c) + 2 ^ 63 * 2) by lia.
  rewrite Z.div_add by lia.
  rewrite to_streamsize_small; [lia|]. unfold half_modulus.
  assert ((w + str_length (str_ c)) / 2 < 0)
    by (apply Z.div_lt_upper_bound; lia).
  lia.
Qed.

Lemma insert_centered_length (s : basic_ostream) (c : center_helper) :
  0 <= width s <= streamsize_max ->
  exists s' e,
    insert_centered s c = Some s' /\
    written s' = written s ++ e /\
    str_length e = Z.max (width s) (str_length (str_ c)).
Proof.
  intros Hw. pose proof (str_length_nonneg (str_ c)) as H0.
  destruct (Z_lt_le_dec (str_length (str_ c)) (width s)) as [Hn|Hn].
  - destruct (pads_nonneg (width s) (str_length (str_ c)) (conj H0 Hn)) as [Hl Hr].
    pose proof (pads_sum (width s) (str_length (str_ c))) as Hsum.
    eexists. eexists. split; [apply (insert_centered_wide s c Hw Hn)|].
    cbn [written]. split; [apply append_assoc|].
    rewrite str_length_append, (str_length_fill_n (right_pad _ _)) by lia.
    destruct (adjust_left s); rewrite str_length_append;
      rewrite (str_length_fill_n (left_pad _ _)) by lia; lia.
  - eexists. exists (str_ c).
    split; [apply (insert_centered_narrow s c Hw Hn)|].
    split; [reflexivity | lia].
Qed.

Lemma all_in_range_spec (p : Z -> bool) (lo : Z) (len : nat) :
  all_in_range p lo len = true ->
  forall z, lo <= z < lo + Z.of_nat len -> p z = true.
Proof.
  revert lo. induction len as [|k IH]; intros lo Hall z Hz; [lia|].
  cbn [all_in_range] in Hall. apply andb_true_iff in Hall.
  destruct Hall as [Hlo Hrest].
  destruct (Z.eq_dec z lo) as [->|Hne]; [exact Hlo|].
  apply (IH (lo + 1) Hrest). lia.
Qed.

(** X1.  On a stream adjusted to the left, a request written at a width
    [w > n] is not centered: the text comes first and all the [w - n] fill
    characters follow it. *)
Theorem centered_left_adjusted_pads_after (s : basic_ostream) (c : center_helper) :
  adjust_left s = true ->
  str_length (str_ c) < width s -> width s <= streamsize_max ->
  exists s',
    insert_centered s c = Some s' /\
    written s' =
      written s ++ str_ c ++
      fill_n (Z.to_nat (width s - str_length (str_ c))) (fill s).
Proof.
  intros Hadj Hn Hmax. pose proof (str_length_nonneg (str_ c)) as H0.
  assert (Hw : 0 <= width s <= streamsize_max) by lia.
  destruct (pads_nonneg (width s) (str_length (str_ c)) (conj H0 Hn)) as [Hl Hr].
  pose proof (pads_sum (width s) (str_length (str_ c))) as Hsum.
  eexists. split; [apply (insert_centered_wide s c Hw Hn)|].
  cbn [written]. rewrite Hadj, !append_assoc, fill_n_add.
  do 3 f_equal. lia.
Qed.

(** X2.  The operator never truncates, reorders or alters the text: what
    a completed call appends is the text with fill characters, and
    nothing else, before and after it.  This holds for every width and
    every setting of the flags; every width [w >= 0] completes. *)
Theorem centered_only_adds_fill (s : basic_ostream) (c : center_helper) :
  (0 <= width s <= streamsize_max ->
   exists s', insert_centered s c = Some s') /\
  (forall s', insert_centered s c = Some s' ->
     exists a b : nat,
       written s' =
       written s ++ fill_n a (fill s) ++ str_ c ++ fill_n b (fill s)).
Proof.
  split; [apply insert_centered_total|].
  intros s'. unfold insert_centered. destruct (wider (width s) c).
  - destruct (streamsize_sub _ _) as [r|]; [|discriminate].
    intros H. injection H as <-. unfold insert_string at 1.
    rewrite padded_empty. unfold insert_string.
    cbn [width precision fill flags written set_width].
    rewrite padded_split, adjust_left_set_width.
    cbn [width fill set_width].
    destruct (adjust_left s).
    + eexists O, _. cbn [fill_n]. rewrite !append_assoc, fill_n_add. reflexivity.
    + eexists _, _. rewrite !append_assoc. reflexivity.
  - intros H. injection H as <-. cbn [written insert_string].
    rewrite padded_split. destruct (adjust_left s).
    + eexists O, _. reflexivity.
    + eexists _, O. cbn [fill_n]. now rewrite append_empty_r.
Qed.

(** X3.  With a negative width [w] and a text of at least [-w] units the
    operator completes and writes the text as it is, without a fill
    character, whichever branch the guard takes. *)
Theorem negative_width_long_text_verbatim (s : basic_ostream) (c : center_helper) :
  streamsize_min <= width s < 0 -> - width s <= str_length (str_ c) ->
  exists s',
    insert_centered s c = Some s' /\
    written s' = written s ++ str_ c /\ width s' = 0.
Proof.
  intros Hw Hn. unfold insert_centered. rewrite (wider_negative _ _ Hw).
  destruct (modulus + width s >? str_length (str_ c)) eqn:E.
  - apply Z.gtb_lt in E.
    rewrite (left_width_negative_long _ _ Hw (conj Hn E)).
    assert (Hq : 0 <= (width s + str_length (str_ c)) / 2 <= str_length (str_ c)).
    { split; [apply Z.div_pos; lia|].
      apply Z.lt_succ_r, Z.div_lt_upper_bound; lia. }
    assert (Hq' : (width s + str_length (str_ c)) / 2 <= width s + half_modulus).
    { apply Z.lt_succ_r, Z.div_lt_upper_bound; [lia|].
      unfold half_modulus, modulus in *. lia. }
    rewrite streamsize_sub_in_range
      by (unfold is_streamsize, streamsize_min, streamsize_max, half_modulus in *; lia).
    eexists. split; [reflexivity|]. split; [|reflexivity].
    unfold insert_string at 1. rewrite padded_fits
      by (cbn [width set_width]; change (str_length "") with 0; lia).
    unfold insert_string. cbn [written set_width].
    rewrite padded_fits by (cbn [width set_width]; lia).
    apply append_empty_r.
  - eexists. split; [reflexivity|]. split; [|reflexivity].
    cbn [written insert_string]. rewrite padded_fits; [reflexivity|]. lia.
Qed.

(** X4.  With a negative width [w] and a text of fewer than [-w] units the
    padding branch is taken and the subtraction [w - left] overflows
    [std::streamsize], except for the width [-1] and the empty text. *)
Theorem negative_width_short_text_overflows (s : basic_ostream) (c : center_helper) :
  streamsize_min <= width s < 0 -> str_length (str_ c) < - width s ->
  wider (width s) c = true /\
  (insert_centered s c = None <->
   ~ (width s = -1 /\ str_length (str_ c) = 0)).
Proof.
  intros Hw Hn. pose proof (str_length_nonneg (str_ c)) as H0.
  assert (Hg : wider (width s) c = true).
  { rewrite (wider_negative _ _ Hw). apply Z.gtb_lt.
    unfold streamsize_min, half_modulus, modulus in *. lia. }
  split; [exact Hg|].
  unfold insert_centered. rewrite Hg.
  rewrite (left_width_negative_short _ _ Hw Hn).
  unfold streamsize_sub, is_streamsizeb.
  unfold streamsize_min, streamsize_max, half_modulus in *.
  cbv zeta.
  destruct (- 2 ^ 63 <=?
            width s - (2 ^ 63 + (width s + str_length (str_ c)) / 2)) eqn:El.
  - apply Z.leb_le in El.
    assert (Hu : (width s - (2 ^ 63 + (width s + str_length (str_ c)) / 2)
                  <=? 2 ^ 63 - 1) = true)
      by (apply Z.leb_le; Z.div_mod_to_equations; lia).
    rewrite Hu. cbn [andb]. split; [discriminate|].
    intros Hne. exfalso. apply Hne.
    clear Hu Hg. Z.div_mod_to_equations. lia.
  - cbn [andb]. split; [|reflexivity]. intros _ [Hw1 Hn0].
    apply Z.leb_gt in El. rewrite Hw1, Hn0 in El.
    vm_compute in El. discriminate.
Qed.

Lemma row_length_fits (cols : list (Z * center_helper)) :
  Forall (fun wc => str_length (str_ (snd wc)) <= fst wc) cols ->
  row_length cols = row_width cols.
Proof.
  induction 1 as [|[w c] rest Hfit _ IH]; cbn [row_length row_width];
    [reflexivity|].
  cbn [fst snd] in Hfit. rewrite IH. lia.
Qed.

(** X5.  The width is spent by the request it was set for: a second
    request written without a new [setw] gets no fill character. *)
Theorem centered_next_request_unpadded
  (s : basic_ostream) (c1 c2 : center_helper) :
  0 <= width s <= streamsize_max ->
  exists s1 s2,
    insert_centered s c1 = Some s1 /\
    insert_centered s1 c2 = Some s2 /\
    written s2 = written s1 ++ str_ c2.
Proof.
  intros Hw. destruct (insert_centered_total s c1 Hw) as [s1 H1].
  destruct (insert_centered_frame _ _ _ H1) as [Hw1 _].
  pose proof (str_length_nonneg (str_ c2)) as H0.
  exists s1. eexists. split; [exact H1|].
  split; [apply (insert_centered_narrow s1 c2)|reflexivity].
  - rewrite Hw1. unfold streamsize_max, half_modulus. lia.
  - rewrite Hw1. exact H0.
Qed.

Lemma to_int_in_range (z : Z) : int_min <= z <= int_max -> to_int z = z.
Proof.
  unfold int_min, int_max, to_int. intros Hz.
  rewrite Z.mod_small by lia. lia.
Qed.

Lemma width_setw (w : Z) (s : basic_ostream) :
  int_min <= w <= int_max -> width (setw w s) = w.
Proof. intros Hw. cbn [width setw set_width]. now apply to_int_in_range. Qed.

(** X6.  A row written as a chain of [setw(w) << centered(x)] with [int]
    widths [w >= 0] completes and appends [max w n] characters for each
    field in turn; when every text fits its width the row is as long as
    the sum of the widths, so the rows of a table have equal length. *)
Theorem put_row_length (cols : list (Z * center_helper)) (s : basic_ostream) :
  Forall (fun wc => 0 <= fst wc <= int_max) cols ->
  exists s' e,
    put_row cols s = Some s' /\
    written s' = written s ++ e /\
    str_length e = row_length cols /\
    (Forall (fun wc => str_length (str_ (snd wc)) <= fst wc) cols ->
     str_length e = row_width cols).
Proof.
  intros Hcols. revert s.
  induction Hcols as [|[w c] rest Hw _ IH]; intros s.
  - exists s, "". cbn [put_row row_length row_width].
    split; [reflexivity|]. split; [symmetry; apply append_empty_r|].
    split; [reflexivity | intros _; reflexivity].
  - cbn [fst] in Hw.
    assert (Hws : width (setw w s) = w)
      by (apply width_setw; unfold int_min; lia).
    assert (Hw' : 0 <= width (setw w s) <= streamsize_max)
      by (rewrite Hws; unfold int_max, streamsize_max, half_modulus in *; lia).
    destruct (insert_centered_length (setw w s) c Hw')
      as (s1 & e1 & H1 & Hout1 & Hlen1).
    rewrite Hws in Hlen1.
    destruct (IH s1) as (s' & e2 & H2 & Hout2 & Hlen2 & _).
    exists s', (e1 ++ e2). cbn [put_row]. unfold put_centered. rewrite H1.
    split; [exact H2|].
    assert (Hlen : str_length (e1 ++ e2) = row_length ((w, c) :: rest)).
    { rewrite str_length_append, Hlen1, Hlen2. reflexivity. }
    split; [|split; [exact Hlen|]].
    + rewrite Hout2, Hout1. cbn [written setw set_width]. apply append_assoc.
    + intros Hfit. rewrite Hlen. now apply row_length_fits.
Qed.

(** X7.  The character-sized and short integer overloads print their
    argument as a number: the text is the canonical decimal text of the
    value, of 1 to 4 characters for a [signed char], 1 to 3 for an
    [unsigned char], 1 to 6 for a [short] and 1 to 5 for an
    [unsigned short]. *)
Theorem small_integer_text_length (z : Z) :
  (-128 <= z <= 127 ->
   is_decimal_text z (str_ (centered_signed_char z)) /\
   1 <= str_length (str_ (centered_signed_char z)) <= 4) /\
  (0 <= z <= 255 ->
   is_decimal_text z (str_ (centered_unsigned_char z)) /\
   1 <= str_length (str_ (centered_unsigned_char z)) <= 3) /\
  (-32768 <= z <= 32767 ->
   is_decimal_text z (str_ (centered_short z)) /\
   1 <= str_length (str_ (centered_short z)) <= 6) /\
  (0 <= z <= 65535 ->
   is_decimal_text z (str_ (centered_unsigned_short z)) /\
   1 <= str_length (str_ (centered_unsigned_short z)) <= 5).
Proof.
  assert (Hb : forall (f : Z -> center_helper) (lo hi m : Z),
             all_in_range
               (fun k => (1 <=? str_length (str_ (f k))) &&
                         (str_length (str_ (f k)) <=? m))
               lo (Z.to_nat (hi - lo + 1)) = true ->
             lo <= z <= hi -> 1 <= str_length (str_ (f z)) <= m).
  { intros f lo hi m Hall Hz.
    pose proof (all_in_range_spec _ _ _ Hall z) as Hp.
    apply andb_true_iff in Hp; [|lia].
    destruct Hp as [H1 H2]. apply Z.leb_le in H1, H2. lia. }
  split; [|split; [|split]]; intros Hz; (split; [apply to_string_Z_decimal|]).
  - apply (Hb centered_signed_char (-128) 127 4); [vm_compute; reflexivity | exact Hz].
  - apply (Hb centered_unsigned_char 0 255 3); [vm_compute; reflexivity | exact Hz].
  - apply (Hb centered_short (-32768) 32767 6); [vm_compute; reflexivity | exact Hz].
  - apply (Hb centered_unsigned_short 0 65535 5); [vm_compute; reflexivity | exact Hz].
Qed.

(** ** Instances of the further properties *)

Lemma centered_left_adjusted_pads_after_witness :
  exists s',
    insert_centered
      {| width := 10; precision := 6; fill := " "%char;
         flags := Z.lor (Z.lor skipws dec) left; written := "" |}
      (centered_char "w")
    = Some s' /\
    written s' = "w         ".
Proof.
  apply (centered_left_adjusted_pads_after
           {| width := 10; precision := 6; fill := " "%char;
              flags := Z.lor (Z.lor skipws dec) left; written := "" |}
           (centered_char "w")).
  - reflexivity.
  - reflexivity.
  - vm_compute. discriminate.
Defined.

Lemma centered_only_adds_fill_witness :
  exists s' (a b : nat),
    insert_centered (setw 10 init) (centered_string "abc") = Some s' /\
    written s' = fill_n a " "%char ++ "abc" ++ fill_n b " "%char.
Proof.
  destruct (centered_only_adds_fill (setw 10 init) (centered_string "abc"))
    as [Htotal Hfill].
  destruct Htotal as [s' Hs'].
  - vm_compute. split; discriminate.
  - destruct (Hfill s' Hs') as (a & b & Hout).
    exists s', a, b. split; [exact Hs' | exact Hout].
Defined.

Lemma negative_width_long_text_verbatim_witness :
  exists s',
    insert_centered (setw (-3) init) (centered_string "abc") = Some s' /\
    written s' = "abc" /\ width s' = 0.
Proof.
  apply (negative_width_long_text_verbatim (setw (-3) init) (centered_string "abc")).
  - vm_compute. split; [discriminate | reflexivity].
  - vm_compute. discriminate.
Defined.

Lemma negative_width_short_text_overflows_witness :
  insert_centered (setw (-2) init) (centered_string "") = None.
Proof.
  destruct (negative_width_short_text_overflows
              (setw (-2) init) (centered_string "")) as [_ Hnone].
  - vm_compute. split; [discriminate | reflexivity].
  - reflexivity.
  - apply Hnone. intros [Hw _]. discriminate Hw.
Defined.

Lemma centered_next_request_unpadded_witness :
  exists s1 s2,
    insert_centered (setw 10 init) (centered_string "1") = Some s1 /\
    insert_centered s1 (centered_char "w") = Some s2 /\
    written s2 = written s1 ++ "w".
Proof.
  apply (centered_next_request_unpadded
           (setw 10 init) (centered_string "1") (centered_char "w")).
  vm_compute. split; discriminate.
Defined.

Lemma put_row_length_witness :
  exists s' e,
    put_row ((10, centered_string "Column A") :: (10, centered_string "Column B") :: nil)
            init = Some s' /\
    written s' = e /\
    str_length e = 20 /\
    (Forall (fun wc => str_length (str_ (snd wc)) <= fst wc)
       ((10, centered_string "Column A") :: (10, centered_string "Column B") :: nil) ->
     str_length e = 20).
Proof.
  apply (put_row_length
           ((10, centered_string "Column A") :: (10, centered_string "Column B") :: nil)
           init).
  repeat constructor; vm_compute; discriminate.
Defined.

Lemma small_integer_text_length_witness :
  is_decimal_text (-10) (str_ (centered_signed_char (-10))) /\
  1 <= str_length (str_ (centered_signed_char (-10))) <= 4.
Proof.
  apply (proj1 (small_integer_text_length (-10))). vm_compute. split; discriminate.
Defined.
